(** * container-registry-proxy: the translation layer of [main.go]

    A shallow embedding of the handlers [Catalog] and [TagsList], of
    [GitHubUsers] and of the router built by [NewProxy], followed by the
    properties of the registry responses they produce.

    Logging ([log.Printf]) has no effect on a response and is left out,
    together with the counter [newPackages], which is only logged. *)

From Stdlib Require Import String Ascii List Bool Arith Lia.
Import ListNotations.
Local Open Scope string_scope.
Local Open Scope list_scope.

Set Implicit Arguments.
Set Warnings "-register-all".

(* ===================================================================== *)
(** * Fragments of the Go runtime and standard library used by [main.go] *)
(* ===================================================================== *)

Module Go.

(** A computation either completes or stops on a run-time panic; the only
    panic [main.go] can raise is a nil pointer dereference. *)
Inductive outcome (A : Type) : Type :=
| Done (a : A)
| Panic.
Arguments Done {A} a.
Arguments Panic {A}.

Definition bind {A B : Type} (m : outcome A) (k : A -> outcome B) : outcome B :=
  match m with
  | Done a => k a
  | Panic => Panic
  end.

(** [*p] and [p.f] for a pointer [p]; the nil pointer is [None]. *)
Definition deref {A : Type} (p : option A) : outcome A :=
  match p with
  | Some a => Done a
  | None => Panic
  end.

(** A slice that is encoded to JSON: [encoding/json] writes the nil slice
    as [null] and an allocated one, even when empty, as an array. *)
Inductive slice (A : Type) : Type :=
| nil_slice
| Slice (l : list A).
Arguments nil_slice {A}.
Arguments Slice {A} l.

Definition elems {A : Type} (s : slice A) : list A :=
  match s with
  | nil_slice => []
  | Slice l => l
  end.

(** [append(s, xs...)]: appending nothing to the nil slice leaves it nil. *)
Definition append {A : Type} (s : slice A) (xs : list A) : slice A :=
  match s, xs with
  | nil_slice, [] => nil_slice
  | nil_slice, _ :: _ => Slice xs
  | Slice l, _ => Slice (l ++ xs)
  end.

(** [strings.Split(s, sep)] for a one-byte separator, the only use in
    [main.go] (separator [","]): the parts between the separators, so one
    part more than there are separators; [Split("", sep)] is [[""]]. *)
Fixpoint Split (s : string) (sep : ascii) : list string :=
  match s with
  | EmptyString => [EmptyString]
  | String c s' =>
      if Ascii.eqb c sep then EmptyString :: Split s' sep
      else match Split s' sep with
           | [] => [String c EmptyString]
           | part :: parts => String c part :: parts
           end
  end.

(** [strings.Join(elems, sep)]. *)
Fixpoint Join (parts : list string) (sep : string) : string :=
  match parts with
  | [] => EmptyString
  | [part] => part
  | part :: parts' => String.append part (String.append sep (Join parts' sep))
  end.

(** [strings.ContainsRune]-style test, used to state properties only. *)
Fixpoint contains_byte (c : ascii) (s : string) : bool :=
  match s with
  | EmptyString => false
  | String c' s' => Ascii.eqb c' c || contains_byte c s'
  end.

(** The process environment and [os.Getenv], which returns the empty
    string for a variable that is not set. *)
Definition environ := list (string * string).

Fixpoint Getenv (env : environ) (key : string) : string :=
  match env with
  | [] => EmptyString
  | (k, v) :: env' => if String.eqb k key then v else Getenv env' key
  end.

(** [fmt.Sprintf("%s/%s", a, b)]. *)
Definition Sprintf_s_slash_s (a b : string) : string :=
  String.append a (String.append "/" b).

(** [fmt.Sprintf(prefix + "%s", err)]: the error is printed through its
    [Error()] text. *)
Definition Sprintf_prefix_s (prefix err : string) : string :=
  String.append prefix err.

(** [http.StatusBadRequest]; [http.StatusOK] is what [net/http] sends when
    the body is written without a call to [WriteHeader]. *)
Definition StatusBadRequest : nat := 400.
Definition StatusOK : nat := 200.

End Go.

Import Go.

Notation "x <- m ;; k" := (bind m (fun x => k))
  (at level 61, m at next level, right associativity).

(* ===================================================================== *)
(** * The go-github records read by the handlers *)
(* ===================================================================== *)

(** Every field the handlers read is a pointer in go-github, hence an
    [option] here.  A listing is a slice of pointers to records decoded
    from JSON objects; these pointers are taken to be non-nil. *)
Module github.

Record User : Type := { Login : option string }.

Record Package : Type := {
  Name : option string;
  Owner : option User
}.

Record PackageContainerMetadata : Type := { Tags : list string }.

Record PackageMetadata : Type := {
  Container : option PackageContainerMetadata
}.

Record PackageVersion : Type := { Metadata : option PackageMetadata }.

End github.

(** What a client call returns: the listing when [err == nil], else the
    error, kept as its [Error()] text. *)
Inductive result (A : Type) : Type :=
| Ok (a : A)
| Err (msg : string).
Arguments Ok {A} a.
Arguments Err {A} msg.

Definition is_ok {A : Type} (r : result A) : bool :=
  match r with
  | Ok _ => true
  | Err _ => false
  end.

(* ===================================================================== *)
(** * Registry wire types *)
(* ===================================================================== *)

(** Modelled from the spec: the declarations of [apiError], [apiErrors],
    [ERROR_UNKNOWN], [makeError] and [packageType] are in a file of the
    package other than [main.go].  [main.go] shows the fields [Code] and
    [Message] of [apiError] and the field [Errors] of [apiErrors]; the spec
    gives the envelope [{ errors: [ { code, message, detail? } ] }], the
    code [UNKNOWN] as the only one emitted, an envelope of one entry for a
    failed version listing, and [container] as the package type. *)
Inductive ErrorCode : Type := ERROR_UNKNOWN.

Record apiError : Type := {
  Code : ErrorCode;
  Message : string
}.

Record apiErrors : Type := { Errors : slice apiError }.

Definition makeError (code : ErrorCode) (message : string) : apiErrors :=
  {| Errors := Slice [ {| Code := code; Message := message |} ] |}.

Definition packageType : string := "container".

(** The three bodies the handlers encode: the anonymous structs of
    [Catalog] and [TagsList], and the error envelope. *)
Inductive body : Type :=
| CatalogBody (Repositories : slice string)
| TagsBody (Name : string) (Tags : slice string)
| ErrorBody (errors : apiErrors).

(** What a handler has written when it returns: the status line, the
    [Content-Type] header and the encoded value. *)
Record response : Type := {
  status : nat;
  content_type : string;
  payload : body
}.

(** The JSON value [json.NewEncoder(w).Encode] writes for a body.  The
    member names of the two anonymous structs are their [json] tags in
    [main.go]; those of the envelope are the spec's. *)
Inductive json : Type :=
| JNull
| JString (s : string)
| JArray (items : list json)
| JObject (members : list (string * json)).

Definition encode_slice {A : Type} (f : A -> json) (s : slice A) : json :=
  match s with
  | nil_slice => JNull
  | Slice l => JArray (map f l)
  end.

Definition encode_code (c : ErrorCode) : json :=
  match c with
  | ERROR_UNKNOWN => JString "UNKNOWN"
  end.

Definition encode_error (e : apiError) : json :=
  JObject [("code", encode_code (Code e)); ("message", JString (Message e))].

Definition encode (b : body) : json :=
  match b with
  | CatalogBody repositories =>
      JObject [("repositories", encode_slice JString repositories)]
  | TagsBody name tags =>
      JObject [("name", JString name); ("tags", encode_slice JString tags)]
  | ErrorBody errors =>
      JObject [("errors", encode_slice encode_error (Errors errors))]
  end.

(* ===================================================================== *)
(** * [GitHubUsers] *)
(* ===================================================================== *)

Definition comma : ascii := ","%char.

(** [GitHubUsers] (lines 68-77), over the process environment. *)
Definition GitHubUsers (env : environ) : list string :=
  let users := Split (Getenv env "GITHUB_USERS") comma in
  if negb (String.eqb (Getenv env "GITHUB_USERS") "") then
    let defaultUser := [""] in
    defaultUser ++ users
  else users.

(* ===================================================================== *)
(** * The handlers, over a client of the origin API *)
(* ===================================================================== *)

(** The interface [GitHubClient] as the handlers call it.  A client answers
    from a state of its own (the remote service), threaded through the
    calls; the request context and the options, which carry nothing but
    [packageType], are not modelled further. *)
Class GitHubClient (client : Type) : Type := {
  ListPackages :
    client -> string -> string -> result (list github.Package) * client;
  PackageGetAllVersions :
    client -> string -> string -> string ->
    result (list github.PackageVersion) * client
}.

(** The guard of lines 101 and 140,
    [pack.Name == nil || pack.Owner.Login == nil]: [||] does not evaluate
    its right operand when the name is nil; otherwise [pack.Owner.Login]
    reads a field through the pointer [pack.Owner]. *)
Definition missing_field (pack : github.Package) : outcome bool :=
  match github.Name pack with
  | None => Done true
  | Some _ =>
      owner <- deref (github.Owner pack) ;;
      match github.Login owner with
      | None => Done true
      | Some _ => Done false
      end
  end.

(** The scan of lines 104-110: is [tempPack] already in [packages]? *)
Fixpoint found_in (tempPack : github.Package) (packages : list github.Package)
  : outcome bool :=
  match packages with
  | [] => Done false
  | pack :: rest =>
      tempName <- deref (github.Name tempPack) ;;
      packName <- deref (github.Name pack) ;;
      if String.eqb tempName packName then
        tempOwner <- deref (github.Owner tempPack) ;;
        tempLogin <- deref (github.Login tempOwner) ;;
        packOwner <- deref (github.Owner pack) ;;
        packLogin <- deref (github.Login packOwner) ;;
        if String.eqb tempLogin packLogin then Done true
        else found_in tempPack rest
      else found_in tempPack rest
  end.

(** The loop of lines 100-115 over the packages of one listing. *)
Fixpoint add_packages (tempPackages packages : list github.Package)
  : outcome (list github.Package) :=
  match tempPackages with
  | [] => Done packages
  | tempPack :: rest =>
      skip <- missing_field tempPack ;;
      if skip then add_packages rest packages
      else
        found <- found_in tempPack packages ;;
        if found then add_packages rest packages
        else add_packages rest (packages ++ [tempPack])
  end.

(** The variables of lines 88-90.  [successes] counts at most one per
    identity, far below the range of [int]. *)
Record fanout_state : Type := {
  successes : nat;
  packages : list github.Package;
  errors : apiErrors
}.

Definition fanout_init : fanout_state :=
  {| successes := 0; packages := []; errors := {| Errors := nil_slice |} |}.

(** Lines 94-97: one failed listing. *)
Definition record_failure (st : fanout_state) (err : string) : fanout_state :=
  let error :=
    {| Code := ERROR_UNKNOWN;
       Message := Sprintf_prefix_s "ListPackages: " err |} in
  {| successes := successes st;
     packages := packages st;
     errors := {| Errors := append (Errors (errors st)) [error] |} |}.

(** Lines 99-115: one successful listing. *)
Definition record_success (st : fanout_state)
  (tempPackages : list github.Package) : outcome fanout_state :=
  packages' <- add_packages tempPackages (packages st) ;;
  Done {| successes := S (successes st);
          packages := packages';
          errors := errors st |}.

(** The loop of lines 139-148. *)
Fixpoint repositories_of (packages : list github.Package)
  (repositories : slice string) : outcome (slice string) :=
  match packages with
  | [] => Done repositories
  | pack :: rest =>
      skip <- missing_field pack ;;
      if skip then repositories_of rest repositories
      else
        name <- deref (github.Name pack) ;;
        owner <- deref (github.Owner pack) ;;
        login <- deref (github.Login owner) ;;
        repositories_of rest
          (append repositories [Sprintf_s_slash_s login name])
  end.

(** Lines 120-149: the response, from the state the fan-out ends in. *)
Definition catalog_response (st : fanout_state) : outcome response :=
  if Nat.eqb (successes st) 0 then
    Done {| status := StatusBadRequest;
            content_type := "application/json";
            payload := ErrorBody (errors st) |}
  else
    repositories <- repositories_of (packages st) (Slice []) ;;
    Done {| status := StatusOK;
            content_type := "application/json";
            payload := CatalogBody repositories |}.

(** The loop body of lines 175-184. *)
Definition add_tags (tags : slice string) (version : github.PackageVersion)
  : slice string :=
  match github.Metadata version with
  | None => tags
  | Some metadata =>
      match github.Container metadata with
      | None => tags
      | Some container => append tags (github.Tags container)
      end
  end.

Section Handlers.

Context {client : Type} `{GitHubClient client}.

(** The loop of lines 91-118: one call per identity, in order. *)
Fixpoint fanout (c : client) (users : list string) (st : fanout_state)
  : outcome fanout_state :=
  match users with
  | [] => Done st
  | user :: rest =>
      let (listing, c') := ListPackages c user packageType in
      match listing with
      | Err err => fanout c' rest (record_failure st err)
      | Ok tempPackages =>
          st' <- record_success st tempPackages ;;
          fanout c' rest st'
      end
  end.

(** [Catalog] (lines 80-150).  A panic leaves the handler before anything
    is written. *)
Definition Catalog (env : environ) (c : client) : outcome response :=
  let users := GitHubUsers env in
  st <- fanout c users fanout_init ;;
  catalog_response st.

(** [TagsList] (lines 153-186); [owner] and [name] are the URL parameters
    of the matched route. *)
Definition TagsList (c : client) (owner name : string) : response :=
  let (listing, _) := PackageGetAllVersions c owner packageType name in
  match listing with
  | Err err =>
      {| status := StatusBadRequest;
         content_type := "application/json";
         payload :=
           ErrorBody (makeError ERROR_UNKNOWN
                        (Sprintf_prefix_s "PackageGetAllVersions: " err)) |}
  | Ok versions =>
      {| status := StatusOK;
         content_type := "application/json";
         payload :=
           TagsBody (Sprintf_s_slash_s owner name)
                    (fold_left add_tags versions (Slice [])) |}
  end.

(** The answers the client gives to the calls of the fan-out, in call
    order. *)
Fixpoint listings (c : client) (users : list string)
  : list (result (list github.Package)) :=
  match users with
  | [] => []
  | user :: rest =>
      let (listing, c') := ListPackages c user packageType in
      listing :: listings c' rest
  end.

End Handlers.

(* ===================================================================== *)
(** * The router of [NewProxy] *)
(* ===================================================================== *)

(** The part of go-chi's [Mux] that [NewProxy] configures.  A mux holds the
    routes registered per method, the handler set with [NotFound] and the
    one set with [MethodNotAllowed].  To route a request it looks for a
    route whose pattern matches the path and that has an endpoint for the
    method; when a pattern matches the path but has no endpoint for the
    method, the routing context is flagged [methodNotAllowed] and the
    request goes to the method-not-allowed handler (by default a reply
    with status 405), otherwise to the not-found handler (by default
    status 404). *)
Module chi.

Inductive method : Type :=
| GET | HEAD | POST | PUT | PATCH | DELETE | CONNECT | OPTIONS | TRACE.

Definition method_eqb (a b : method) : bool :=
  match a, b with
  | GET, GET | HEAD, HEAD | POST, POST | PUT, PUT | PATCH, PATCH
  | DELETE, DELETE | CONNECT, CONNECT | OPTIONS, OPTIONS | TRACE, TRACE => true
  | _, _ => false
  end.

(** A pattern, segment by segment: static text or a URL parameter
    [{key}], which binds one path segment. *)
Inductive segment : Type :=
| Static (text : string)
| Param (key : string).

Definition slash : ascii := "/"%char.

Fixpoint drop_last (s : string) : string :=
  match s with
  | EmptyString => EmptyString
  | String _ EmptyString => EmptyString
  | String c s' => String c (drop_last s')
  end.

Definition parse_segment (s : string) : segment :=
  match s with
  | String c s' => if Ascii.eqb c "{"%char then Param (drop_last s') else Static s
  | EmptyString => Static s
  end.

(** The segments after the leading [/]. *)
Definition segments (path : string) : list string :=
  match Split path slash with
  | _ :: segs => segs
  | [] => []
  end.

Definition parse_pattern (pattern : string) : list segment :=
  map parse_segment (segments pattern).

Definition params := list (string * string).

Fixpoint match_segments (pat : list segment) (segs : list string)
  : option params :=
  match pat, segs with
  | [], [] => Some []
  | Static text :: pat', seg :: segs' =>
      if String.eqb text seg then match_segments pat' segs' else None
  | Param key :: pat', seg :: segs' =>
      match match_segments pat' segs' with
      | Some ps => Some ((key, seg) :: ps)
      | None => None
      end
  | _, _ => None
  end.

Definition match_pattern (pattern path : string) : option params :=
  match_segments (parse_pattern pattern) (segments path).

(** [chi.URLParam]. *)
Fixpoint URLParam (ps : params) (key : string) : string :=
  match ps with
  | [] => EmptyString
  | (k, v) :: ps' => if String.eqb k key then v else URLParam ps' key
  end.

Section Mux.

Variable handler : Type.

Record route : Type := {
  route_method : method;
  route_pattern : string;
  route_endpoint : handler
}.

Record Mux : Type := {
  routes : list route;
  notFoundHandler : option handler;
  methodNotAllowedHandler : option handler
}.

Definition NewRouter : Mux :=
  {| routes := []; notFoundHandler := None; methodNotAllowedHandler := None |}.

(** [mx.Get(pattern, h)]. *)
Definition Get (mx : Mux) (pattern : string) (h : handler) : Mux :=
  {| routes :=
       routes mx ++
       [ {| route_method := GET; route_pattern := pattern;
            route_endpoint := h |} ];
     notFoundHandler := notFoundHandler mx;
     methodNotAllowedHandler := methodNotAllowedHandler mx |}.

(** [mx.NotFound(h)]. *)
Definition NotFound (mx : Mux) (h : handler) : Mux :=
  {| routes := routes mx;
     notFoundHandler := Some h;
     methodNotAllowedHandler := methodNotAllowedHandler mx |}.

(** Who serves a request. *)
Inductive served : Type :=
| Endpoint (h : handler) (ps : params)
| Fallback (h : handler)
| DefaultNotFound
| DefaultMethodNotAllowed.

(** The first route for the method whose pattern matches the path. *)
Fixpoint find_route (rs : list route) (m : method) (path : string)
  : option (handler * params) :=
  match rs with
  | [] => None
  | r :: rs' =>
      match match_pattern (route_pattern r) path with
      | Some ps =>
          if method_eqb (route_method r) m then Some (route_endpoint r, ps)
          else find_route rs' m path
      | None => find_route rs' m path
      end
  end.

(** Does some registered pattern, for whatever method, match the path? *)
Definition path_routed (rs : list route) (path : string) : bool :=
  existsb
    (fun r =>
       match match_pattern (route_pattern r) path with
       | Some _ => true
       | None => false
       end) rs.

Definition routeHTTP (mx : Mux) (m : method) (path : string) : served :=
  match find_route (routes mx) m path with
  | Some (h, ps) => Endpoint h ps
  | None =>
      if path_routed (routes mx) path then
        match methodNotAllowedHandler mx with
        | Some h => Fallback h
        | None => DefaultMethodNotAllowed
        end
      else
        match notFoundHandler mx with
        | Some h => Fallback h
        | None => DefaultNotFound
        end
  end.

End Mux.

Arguments DefaultNotFound {handler}.
Arguments DefaultMethodNotAllowed {handler}.

End chi.

(** The three handlers [NewProxy] mounts. *)
Inductive proxy_handler : Type :=
| proxy_Catalog
| proxy_TagsList
| upstreamProxy_ServeHTTP.

(** The router of [NewProxy] (lines 49-60); the timeout middleware does not
    take part in routing. *)
Definition NewProxy_router : chi.Mux proxy_handler :=
  let router := chi.NewRouter proxy_handler in
  let router := chi.Get router "/v2/_catalog" proxy_Catalog in
  let router := chi.Get router "/v2/{owner}/{name}/tags/list" proxy_TagsList in
  chi.NotFound router upstreamProxy_ServeHTTP.

(** What the server does with a request: a translated response (or the
    panic of its handler), the hand-over to the upstream proxy, or a reply
    of the router's own. *)
Inductive served_by : Type :=
| Translated (r : outcome response)
| Upstream
| RouterStatus (code : nat).

Section Server.

Context {client : Type} `{GitHubClient client}.

Definition ServeHTTP (env : environ) (c : client) (m : chi.method)
  (path : string) : served_by :=
  match chi.routeHTTP NewProxy_router m path with
  | chi.Endpoint proxy_Catalog _ => Translated (Catalog env c)
  | chi.Endpoint proxy_TagsList ps =>
      let owner := chi.URLParam ps "owner" in
      let name := chi.URLParam ps "name" in
      Translated (Done (TagsList c owner name))
  | chi.Endpoint upstreamProxy_ServeHTTP _ => Upstream
  | chi.Fallback proxy_Catalog => Translated (Catalog env c)
  | chi.Fallback proxy_TagsList => Translated (Done (TagsList c "" ""))
  | chi.Fallback upstreamProxy_ServeHTTP => Upstream
  | chi.DefaultNotFound => RouterStatus 404
  | chi.DefaultMethodNotAllowed => RouterStatus 405
  end.

End Server.

(* ===================================================================== *)
(** * Vocabulary of the properties *)
(* ===================================================================== *)

(** The error texts of the failed calls and the listings of the successful
    ones, each in call order. *)
Fixpoint failures {A : Type} (ls : list (result A)) : list string :=
  match ls with
  | [] => []
  | Err err :: ls' => err :: failures ls'
  | Ok _ :: ls' => failures ls'
  end.

Fixpoint successful {A : Type} (ls : list (result A)) : list A :=
  match ls with
  | [] => []
  | Err _ :: ls' => successful ls'
  | Ok a :: ls' => a :: successful ls'
  end.

(** The envelope entry of a failed listing. *)
Definition list_error (err : string) : apiError :=
  {| Code := ERROR_UNKNOWN; Message := String.append "ListPackages: " err |}.

(** The fan-out replayed on the answers alone. *)
Fixpoint replay (ls : list (result (list github.Package)))
  (st : fanout_state) : outcome fanout_state :=
  match ls with
  | [] => Done st
  | Err err :: ls' => replay ls' (record_failure st err)
  | Ok tempPackages :: ls' =>
      st' <- record_success st tempPackages ;;
      replay ls' st'
  end.

(** The successful listings merged one after the other. *)
Fixpoint add_all (listed : list (list github.Package))
  (packages : list github.Package) : outcome (list github.Package) :=
  match listed with
  | [] => Done packages
  | tempPackages :: listed' =>
      packages' <- add_packages tempPackages packages ;;
      add_all listed' packages'
  end.

(** The identity key [(namespace_login, name)] of a record that has both
    fields. *)
Definition key_of (pack : github.Package) : option (string * string) :=
  match github.Name pack, github.Owner pack with
  | Some name, Some owner =>
      match github.Login owner with
      | Some login => Some (login, name)
      | None => None
      end
  | _, _ => None
  end.

Definition complete (pack : github.Package) : Prop :=
  exists k, key_of pack = Some k.

(** A record with a name whose owner object is absent. *)
Definition ownerless (pack : github.Package) : bool :=
  match github.Name pack, github.Owner pack with
  | Some _, None => true
  | _, _ => false
  end.

Fixpoint keys_of (packages : list github.Package) : list (string * string) :=
  match packages with
  | [] => []
  | pack :: rest =>
      match key_of pack with
      | Some k => k :: keys_of rest
      | None => keys_of rest
      end
  end.

(** The comparison of line 106, on keys: names first, then logins. *)
Definition key_eqb (k k' : string * string) : bool :=
  String.eqb (snd k) (snd k') && String.eqb (fst k) (fst k').

(** The merge of one listing, without the pointers: a record that lacks a
    field is passed over, one whose key is already held too, any other is
    appended. *)
Fixpoint add_keys (tempPackages packages : list github.Package)
  : list github.Package :=
  match tempPackages with
  | [] => packages
  | tempPack :: rest =>
      match key_of tempPack with
      | None => add_keys rest packages
      | Some k =>
          if existsb (key_eqb k) (keys_of packages) then add_keys rest packages
          else add_keys rest (packages ++ [tempPack])
      end
  end.

(** All successful listings merged, without the pointers. *)
Definition merged (listed : list (list github.Package))
  (packages : list github.Package) : list github.Package :=
  fold_left (fun packages tempPackages => add_keys tempPackages packages)
            listed packages.

(** The catalog entry of a key. *)
Definition entry (k : string * string) : string :=
  Sprintf_s_slash_s (fst k) (snd k).

(** Exactly one [/], with text on both sides of it. *)
Definition one_slash_both_parts (s : string) : bool :=
  match Split s chi.slash with
  | [before; after] =>
      negb (String.eqb before "") && negb (String.eqb after "")
  | _ => false
  end.

(** Non-empty and free of [/]. *)
Definition plain (s : string) : bool :=
  negb (String.eqb s "") && negb (contains_byte chi.slash s).

(** The tags a version contributes, in the words of the spec: none when
    its metadata or its container metadata is absent, else its container
    tags. *)
Definition version_tags (version : github.PackageVersion) : list string :=
  match github.Metadata version with
  | Some {| github.Container := Some container |} => github.Tags container
  | _ => []
  end.

(** A stub client that answers from two scripts, one answer per call, as a
    test double would; a call past the end of its script fails. *)
Module Stub.

Record t : Type := {
  packages_script : list (result (list github.Package));
  versions_script : list (result (list github.PackageVersion))
}.

Definition list_packages (c : t) (user packageType : string)
  : result (list github.Package) * t :=
  match packages_script c with
  | [] => (Err "EOF", c)
  | answer :: script =>
      (answer,
       {| packages_script := script; versions_script := versions_script c |})
  end.

Definition package_get_all_versions (c : t) (owner packageType name : string)
  : result (list github.PackageVersion) * t :=
  match versions_script c with
  | [] => (Err "EOF", c)
  | answer :: script =>
      (answer,
       {| packages_script := packages_script c; versions_script := script |})
  end.

#[global] Instance client : GitHubClient t := {|
  ListPackages := list_packages;
  PackageGetAllVersions := package_get_all_versions
|}.

Definition of_packages (script : list (result (list github.Package))) : t :=
  {| packages_script := script; versions_script := [] |}.

Definition of_versions (script : list (result (list github.PackageVersion)))
  : t :=
  {| packages_script := []; versions_script := script |}.

Definition package (login name : string) : github.Package :=
  {| github.Name := Some name;
     github.Owner := Some {| github.Login := Some login |} |}.

End Stub.

(* ===================================================================== *)
(** * [main] and further vocabulary *)
(* ===================================================================== *)





(** The keys of a sequence, each at its first occurrence. *)
Fixpoint first_occurrences (ks : list (string * string))
  : list (string * string) :=
  match ks with
  | [] => []
  | k :: ks' =>
      k :: filter (fun k' => negb (key_eqb k' k)) (first_occurrences ks')
  end.

(** The keys seen so far, after a further sequence of keys is observed. *)
Fixpoint observe (ks seen : list (string * string))
  : list (string * string) :=
  match ks with
  | [] => seen
  | k :: ks' =>
      if existsb (key_eqb k) seen then observe ks' seen
      else observe ks' (seen ++ [k])
  end.

(** A record the guard of line 101 passes over: its name is nil, or its
    owner is there and has a nil login. *)
Definition skipped (pack : github.Package) : bool :=
  match key_of pack with
  | Some _ => false
  | None => negb (ownerless pack)
  end.

(** An answer without the records that are passed over. *)
Definition prune (answer : result (list github.Package))
  : result (list github.Package) :=
  match answer with
  | Ok tempPackages => Ok (filter (fun pack => negb (skipped pack)) tempPackages)
  | Err err => Err err
  end.


(* ===================================================================== *)
(** * [strings.Split] and [GitHubUsers] *)
(* ===================================================================== *)

Lemma Split_nonempty (s : string) (sep : ascii) : Split s sep <> [].
Proof.
  destruct s as [|c s]; simpl; [discriminate|].
  destruct (Ascii.eqb c sep); [discriminate|].
  destruct (Split s sep); discriminate.
Qed.

(** Joining the parts with the separator gives the string back: the parts
    are consecutive pieces of it, in order, nothing trimmed or dropped. *)
Lemma Join_cons (part : string) (parts : list string) (sep : string) :
  parts <> [] ->
  Join (part :: parts) sep =
  String.append part (String.append sep (Join parts sep)).
Proof. destruct parts; [contradiction|reflexivity]. Qed.

Lemma Join_Split (s : string) (sep : ascii) :
  Join (Split s sep) (String sep EmptyString) = s.
Proof.
  induction s as [|c s IH]; [reflexivity|].
  pose proof (Split_nonempty s sep) as Hne.
  cbn [Split].
  destruct (Ascii.eqb_spec c sep) as [->|Hc].
  - rewrite Join_cons by assumption. rewrite IH. reflexivity.
  - destruct (Split s sep) as [|p ps]; [contradiction|].
    destruct ps as [|q qs].
    + cbn [Join] in *. now rewrite IH.
    + rewrite Join_cons by discriminate.
      rewrite Join_cons in IH by discriminate.
      cbn [String.append] in IH |- *. now rewrite IH.
Qed.

Lemma Split_parts (s : string) (sep : ascii) :
  Forall (fun part => contains_byte sep part = false) (Split s sep).
Proof.
  induction s as [|c s IH]; simpl.
  - constructor; [reflexivity|constructor].
  - destruct (Ascii.eqb_spec c sep) as [->|Hc].
    + constructor; [reflexivity|exact IH].
    + destruct (Split s sep) as [|p ps].
      * constructor; [|constructor]. simpl.
        apply Ascii.eqb_neq in Hc. now rewrite Hc.
      * inversion IH; subst. constructor; [|assumption].
        simpl. apply Ascii.eqb_neq in Hc. now rewrite Hc.
Qed.

Lemma Split_plain (s : string) (sep : ascii) :
  contains_byte sep s = false -> Split s sep = [s].
Proof.
  induction s as [|c s IH]; simpl; [reflexivity|].
  intros Hc. apply orb_false_iff in Hc as [Hc Hs].
  rewrite Hc, (IH Hs). reflexivity.
Qed.

Lemma Split_app (a b : string) (sep : ascii) :
  contains_byte sep a = false ->
  Split (String.append a (String sep b)) sep = a :: Split b sep.
Proof.
  induction a as [|c a IH]; simpl.
  - intros _. now rewrite Ascii.eqb_refl.
  - intros Hc. apply orb_false_iff in Hc as [Hc Ha].
    rewrite Hc, (IH Ha). reflexivity.
Qed.

Lemma GitHubUsers_nonempty (env : environ) : GitHubUsers env <> [].
Proof.
  unfold GitHubUsers.
  destruct (negb _); [discriminate|apply Split_nonempty].
Qed.

(** C3: for an empty configuration string the identity sequence is exactly
    [[""]]; otherwise it is [""] followed by the comma-split parts of the
    configuration string: the parts joined with commas are the string
    itself (declaration order, duplicates and whitespace kept) and no part
    holds a comma. *)
Theorem GitHubUsers_identity_sequence (env : environ) :
  let conf := Getenv env "GITHUB_USERS" in
  (conf = "" -> GitHubUsers env = [""]) /\
  (conf <> "" ->
   exists parts,
     GitHubUsers env = "" :: parts /\
     parts = Split conf comma /\
     Join parts "," = conf /\
     Forall (fun part => contains_byte comma part = false) parts).
Proof.
  intros conf. unfold GitHubUsers. fold conf. split.
  - intros ->. reflexivity.
  - intros Hconf. apply String.eqb_neq in Hconf. rewrite Hconf. simpl.
    exists (Split conf comma). repeat split.
    + apply Join_Split.
    + apply Split_parts.
Qed.

(** The configuration ["a,b"] gives the identities [""], ["a"], ["b"]. *)
Lemma GitHubUsers_identity_sequence_witness :
  exists parts,
    GitHubUsers [("GITHUB_USERS", "a,b")] = "" :: parts /\
    parts = Split "a,b" comma /\
    Join parts "," = "a,b" /\
    Forall (fun part => contains_byte comma part = false) parts.
Proof.
  apply (GitHubUsers_identity_sequence [("GITHUB_USERS", "a,b")]).
  discriminate.
Defined.

(* ===================================================================== *)
(** * The fan-out of [Catalog] *)
(* ===================================================================== *)

Lemma append_nothing (A : Type) (s : slice A) : append s [] = s.
Proof. destruct s; simpl; [reflexivity|now rewrite app_nil_r]. Qed.

Lemma append_append (A : Type) (s : slice A) (x : A) (xs : list A) :
  append (append s [x]) xs = append s (x :: xs).
Proof.
  destruct s as [|l]; simpl; [reflexivity|].
  now rewrite <- app_assoc.
Qed.

Lemma append_Slice (A : Type) (s : slice A) (x : A) (xs : list A) :
  append s (x :: xs) = Slice (elems s ++ x :: xs).
Proof. destruct s; reflexivity. Qed.

(** Every record is of one of three kinds: it has both fields, it has a
    name but no owner object, or it lacks a field the guard can see. *)
Lemma missing_field_cases (pack : github.Package) :
  (exists k, key_of pack = Some k /\ ownerless pack = false /\
             missing_field pack = Done false) \/
  (key_of pack = None /\ ownerless pack = true /\
   missing_field pack = Panic) \/
  (key_of pack = None /\ ownerless pack = false /\
   missing_field pack = Done true).
Proof.
  destruct pack as [[name|] [[[login|]]|]]; cbn; eauto 6.
Qed.

Lemma key_eqb_eq (k k' : string * string) : key_eqb k k' = true <-> k = k'.
Proof.
  destruct k as [l n], k' as [l' n']. unfold key_eqb. simpl.
  rewrite andb_true_iff, !String.eqb_eq. split.
  - now intros [-> ->].
  - intros E. inversion E. auto.
Qed.

Lemma existsb_key_eqb (k : string * string) (ks : list (string * string)) :
  existsb (key_eqb k) ks = true <-> In k ks.
Proof.
  rewrite existsb_exists. split.
  - intros [k' [Hin Heq]]. apply key_eqb_eq in Heq. now subst.
  - intros Hin. exists k. split; [assumption|now apply key_eqb_eq].
Qed.

(** On an accumulator of records that have both fields the scan
    dereferences nothing nil, and finds the key or not. *)
Lemma found_in_complete (tempPack : github.Package) (k : string * string)
  (packages : list github.Package) :
  key_of tempPack = Some k ->
  Forall complete packages ->
  found_in tempPack packages = Done (existsb (key_eqb k) (keys_of packages)).
Proof.
  intros Hk Hall.
  destruct tempPack as [[name|] [[[login|]]|]]; cbn in Hk; try discriminate.
  injection Hk as <-.
  induction Hall as [|pack rest [k' Hk'] _ IH]; [reflexivity|].
  destruct pack as [[name'|] [[[login'|]]|]]; cbn in Hk'; try discriminate.
  injection Hk' as <-.
  cbn -[String.eqb]. unfold key_eqb at 1. cbn -[String.eqb].
  destruct (String.eqb name name'); cbn -[String.eqb]; [|exact IH].
  destruct (String.eqb login login'); cbn -[String.eqb]; [reflexivity|exact IH].
Qed.

Lemma Forall_complete_snoc (packages : list github.Package)
  (pack : github.Package) (k : string * string) :
  Forall complete packages -> key_of pack = Some k ->
  Forall complete (packages ++ [pack]).
Proof.
  intros Hall Hk. apply Forall_app. split; [assumption|].
  constructor; [now exists k|constructor].
Qed.

Lemma add_packages_add_keys (tempPackages packages : list github.Package) :
  Forall complete packages ->
  add_packages tempPackages packages =
  if existsb ownerless tempPackages then Panic
  else Done (add_keys tempPackages packages).
Proof.
  revert packages.
  induction tempPackages as [|tempPack rest IH]; intros packages Hall;
    [reflexivity|].
  cbn [add_packages add_keys existsb].
  destruct (missing_field_cases tempPack)
    as [[k [Hk [Ho Hm]]]|[[Hk [Ho Hm]]|[Hk [Ho Hm]]]];
    rewrite Hk, Ho, Hm; cbn [bind orb].
  - rewrite (found_in_complete _ Hk Hall). cbn [bind].
    destruct (existsb (key_eqb k) (keys_of packages)).
    + now apply IH.
    + apply IH. now apply Forall_complete_snoc with k.
  - reflexivity.
  - now apply IH.
Qed.

Lemma add_keys_complete (tempPackages packages : list github.Package) :
  Forall complete packages -> Forall complete (add_keys tempPackages packages).
Proof.
  revert packages.
  induction tempPackages as [|tempPack rest IH]; intros packages Hall;
    [assumption|].
  cbn [add_keys]. destruct (key_of tempPack) as [k|] eqn:Hk; [|now apply IH].
  destruct (existsb (key_eqb k) (keys_of packages)); [now apply IH|].
  apply IH. now apply Forall_complete_snoc with k.
Qed.

Lemma keys_of_app (l l' : list github.Package) :
  keys_of (l ++ l') = keys_of l ++ keys_of l'.
Proof.
  induction l as [|pack l IH]; [reflexivity|].
  simpl. destruct (key_of pack); simpl; now rewrite IH.
Qed.

Lemma keys_of_snoc (packages : list github.Package) (pack : github.Package)
  (k : string * string) :
  key_of pack = Some k -> keys_of (packages ++ [pack]) = keys_of packages ++ [k].
Proof. intros Hk. rewrite keys_of_app. simpl. now rewrite Hk. Qed.



(** Whatever the merge holds was held before or comes from the listing. *)
Lemma add_keys_origin (tempPackages packages : list github.Package)
  (pack : github.Package) :
  In pack (add_keys tempPackages packages) ->
  In pack packages \/ In pack tempPackages.
Proof.
  revert packages.
  induction tempPackages as [|tempPack rest IH]; intros packages Hin;
    [now left|].
  cbn [add_keys] in Hin. destruct (key_of tempPack) as [k|].
  - destruct (existsb (key_eqb k) (keys_of packages)).
    + destruct (IH _ Hin); [now left|right; now right].
    + destruct (IH _ Hin) as [Hin'|Hin']; [|right; now right].
      apply in_app_or in Hin' as [Hin'|[<-|[]]]; [now left|right; now left].
  - destruct (IH _ Hin); [now left|right; now right].
Qed.

Lemma add_all_merged (listed : list (list github.Package))
  (packages : list github.Package) :
  Forall complete packages ->
  add_all listed packages =
  if existsb (existsb ownerless) listed then Panic
  else Done (merged listed packages).
Proof.
  revert packages.
  induction listed as [|tempPackages listed IH]; intros packages Hall;
    [reflexivity|].
  cbn [add_all existsb merged fold_left].
  rewrite (add_packages_add_keys _ Hall).
  destruct (existsb ownerless tempPackages); [reflexivity|].
  cbn [bind orb]. apply IH. now apply add_keys_complete.
Qed.

Lemma merged_complete (listed : list (list github.Package))
  (packages : list github.Package) :
  Forall complete packages -> Forall complete (merged listed packages).
Proof.
  revert packages. induction listed as [|t listed IH]; intros packages Hall;
    [assumption|].
  apply IH. now apply add_keys_complete.
Qed.


Lemma merged_origin (listed : list (list github.Package))
  (packages : list github.Package) (pack : github.Package) :
  In pack (merged listed packages) ->
  In pack packages \/ exists tempPackages,
    In tempPackages listed /\ In pack tempPackages.
Proof.
  revert packages. induction listed as [|t listed IH]; intros packages Hin;
    [now left|].
  destruct (IH _ Hin) as [Hin'|[t' [Ht' Hin']]].
  - destruct (add_keys_origin _ _ _ Hin') as [?|?]; [now left|].
    right. exists t. split; [now left|assumption].
  - right. exists t'. split; [now right|assumption].
Qed.

(** The second loop, on records that have both fields: one entry per
    record, in order. *)
Lemma repositories_of_complete (packages : list github.Package)
  (repositories : slice string) :
  Forall complete packages ->
  repositories_of packages repositories =
  Done (append repositories (map entry (keys_of packages))).
Proof.
  intros Hall. revert repositories.
  induction Hall as [|pack rest [k Hk] _ IH]; intros repositories.
  - simpl. now rewrite append_nothing.
  - destruct pack as [[name|] [[[login|]]|]]; cbn in Hk; try discriminate.
    injection Hk as <-. cbn. rewrite IH. now rewrite append_append.
Qed.

Section Catalog.

Context {client : Type} `{GitHubClient client}.

(** The handler sees the client only through its answers. *)
Lemma fanout_replay (c : client) (users : list string) (st : fanout_state) :
  fanout c users st = replay (listings c users) st.
Proof.
  revert c st. induction users as [|user rest IH]; intros c st;
    [reflexivity|].
  cbn [fanout listings].
  destruct (ListPackages c user packageType) as [[tempPackages|err] c'];
    cbn [replay].
  - destruct (record_success st tempPackages); cbn [bind]; [apply IH|reflexivity].
  - apply IH.
Qed.

Lemma listings_length (c : client) (users : list string) :
  length (listings c users) = length users.
Proof.
  revert c. induction users as [|user rest IH]; intros c; [reflexivity|].
  cbn [listings]. destruct (ListPackages c user packageType) as [r c'].
  simpl. now rewrite IH.
Qed.

End Catalog.

(** The state the fan-out ends in: the successful listings merged, one
    count per success, one envelope entry per failure. *)
Lemma replay_spec (ls : list (result (list github.Package)))
  (st : fanout_state) :
  replay ls st =
  packages' <- add_all (successful ls) (packages st) ;;
  Done {| successes := successes st + length (successful ls);
          packages := packages';
          errors :=
            {| Errors :=
                 append (Errors (errors st)) (map list_error (failures ls)) |}
       |}.
Proof.
  revert st. induction ls as [|[tempPackages|err] ls IH]; intros st.
  - cbn. rewrite append_nothing, Nat.add_0_r.
    now destruct st as [n p [e]].
  - cbn [replay successful failures add_all]. unfold record_success.
    destruct (add_packages tempPackages (packages st)) as [packages'|];
      cbn [bind]; [|reflexivity].
    rewrite IH. cbn [successes packages errors length].
    now rewrite Nat.add_succ_r.
  - cbn [replay successful failures map]. rewrite IH.
    cbn [record_failure successes packages errors Errors].
    now rewrite append_append.
Qed.

Lemma successful_length (A : Type) (ls : list (result A)) :
  length (successful ls) + length (failures ls) = length ls.
Proof.
  induction ls as [|[a|err] ls IH]; simpl; [reflexivity| |]; lia.
Qed.

Lemma successful_In (A : Type) (ls : list (result A)) (a : A) :
  In a (successful ls) <-> In (Ok a) ls.
Proof.
  induction ls as [|[a'|err] ls IH]; simpl; [tauto| |].
  - rewrite IH. split; (intros [E|?]; [left; congruence|now right]).
  - rewrite IH. split; [now right|]. now intros [?|?].
Qed.

Section CatalogResponse.

Context {client : Type} `{GitHubClient client}.

(** [Catalog] from the answers of the client: it panics when a successful
    listing holds a record with a name and no owner object; else it replies
    400 with one envelope entry per failure when nothing succeeded, and 200
    with one entry per merged key otherwise. *)
Lemma Catalog_spec (env : environ) (c : client) :
  let ls := listings c (GitHubUsers env) in
  Catalog env c =
  if existsb (existsb ownerless) (successful ls) then Panic
  else if Nat.eqb (length (successful ls)) 0 then
    Done {| status := 400;
            content_type := "application/json";
            payload :=
              ErrorBody
                {| Errors := append nil_slice (map list_error (failures ls)) |}
         |}
  else
    Done {| status := 200;
            content_type := "application/json";
            payload :=
              CatalogBody
                (Slice (map entry (keys_of (merged (successful ls) [])))) |}.
Proof.
  intros ls. unfold Catalog. rewrite fanout_replay. fold ls.
  rewrite replay_spec. cbn [fanout_init successes packages errors Errors].
  rewrite add_all_merged by constructor.
  destruct (existsb (existsb ownerless) (successful ls)); [reflexivity|].
  cbn [bind]. unfold catalog_response. cbn [successes packages errors plus].
  destruct (Nat.eqb (length (successful ls)) 0); [reflexivity|].
  rewrite repositories_of_complete by (apply merged_complete; constructor).
  reflexivity.
Qed.

End CatalogResponse.

(* ===================================================================== *)
(** * The responses of [Catalog] *)
(* ===================================================================== *)

Lemma successful_map_Err (A : Type) (msgs : list string) :
  successful (map (@Err A) msgs) = [] /\ failures (map (@Err A) msgs) = msgs.
Proof.
  induction msgs as [|m msgs [IH1 IH2]]; simpl; [easy|].
  split; [assumption|now rewrite IH2].
Qed.

Lemma successful_exists (A : Type) (ls : list (result A)) :
  existsb is_ok ls = true <-> successful ls <> [].
Proof.
  induction ls as [|[a|err] ls IH]; simpl; [easy|easy|exact IH].
Qed.

Lemma elems_append (A : Type) (s : slice A) (xs : list A) :
  elems (append s xs) = elems s ++ xs.
Proof. destruct s, xs; simpl; auto using app_nil_r. Qed.

Section CatalogClaims.

Context {client : Type} `{GitHubClient client}.

(** X7: when some call succeeds and no listed record has a name without an
    owner object, the reply is 200 and its body is an object with the one
    member [repositories], an array even when it is empty; nothing of the
    failed calls is in it. *)
Lemma Catalog_partial_failure (env : environ) (c : client) :
  let ls := listings c (GitHubUsers env) in
  existsb is_ok ls = true ->
  existsb (existsb ownerless) (successful ls) = false ->
  exists repositories,
    Catalog env c =
    Done {| status := 200;
            content_type := "application/json";
            payload := CatalogBody (Slice repositories) |} /\
    encode (CatalogBody (Slice repositories)) =
    JObject [("repositories", JArray (map JString repositories))].
Proof.
  intros ls Hok Hown. rewrite Catalog_spec. fold ls. rewrite Hown.
  apply successful_exists in Hok.
  destruct (successful ls) as [|t ts] eqn:Hs; [contradiction|].
  cbn [length Nat.eqb]. eexists. split; reflexivity.
Qed.

(** C2: when every call of the fan-out fails, [Catalog] replies 400 and
    its body is the error envelope holding, in identity order, one entry
    per identity, with code [UNKNOWN] and the message ["ListPackages: "]
    followed by the text of that identity's error. *)
Theorem Catalog_total_failure (env : environ) (c : client)
  (msgs : list string) :
  listings c (GitHubUsers env) = map Err msgs ->
  Catalog env c =
  Done {| status := 400;
          content_type := "application/json";
          payload :=
            ErrorBody
              {| Errors :=
                   Slice
                     (map (fun err =>
                             {| Code := ERROR_UNKNOWN;
                                Message :=
                                  String.append "ListPackages: " err |})
                          msgs) |} |} /\
  length msgs = length (GitHubUsers env).
Proof.
  intros Hls.
  assert (Hlen : length msgs = length (GitHubUsers env)).
  { rewrite <- (listings_length c (GitHubUsers env)), Hls.
    now rewrite length_map. }
  split; [|exact Hlen].
  rewrite Catalog_spec, Hls.
  destruct (successful_map_Err (list github.Package) msgs) as [-> ->].
  cbn [existsb length Nat.eqb].
  destruct msgs as [|m msgs]; [|reflexivity].
  exfalso. apply (GitHubUsers_nonempty env).
  now apply length_zero_iff_nil.
Qed.

(** C10: the identity sequence is never empty, so the fan-out makes at
    least one call; and whenever [Catalog] replies 400 the [errors] member
    of its body is an array with at least one entry. *)
Theorem Catalog_attempts_and_reports (env : environ) (c : client) :
  GitHubUsers env <> [] /\
  listings c (GitHubUsers env) <> [] /\
  forall resp,
    Catalog env c = Done resp -> status resp = 400 ->
    exists e es,
      payload resp = ErrorBody {| Errors := Slice (e :: es) |} /\
      encode (payload resp) =
      JObject [("errors", JArray (encode_error e :: map encode_error es))].
Proof.
  pose proof (GitHubUsers_nonempty env) as Hne.
  assert (Hls : listings c (GitHubUsers env) <> []).
  { intros E. apply Hne. apply length_zero_iff_nil.
    now rewrite <- (listings_length c (GitHubUsers env)), E. }
  repeat split; [assumption..|].
  intros resp Hresp Hstatus. rewrite Catalog_spec in Hresp.
  destruct (existsb (existsb ownerless) _); [discriminate|].
  pose proof (successful_length (listings c (GitHubUsers env))) as Hlen.
  destruct (Nat.eqb_spec (length (successful (listings c (GitHubUsers env)))) 0)
    as [Hz|Hz]; injection Hresp as <-; [|discriminate].
  rewrite Hz in Hlen. cbn [plus] in Hlen.
  destruct (failures (listings c (GitHubUsers env))) as [|err errs].
  - exfalso. apply Hls. now apply length_zero_iff_nil.
  - eexists. eexists. split; reflexivity.
Qed.

(** C5 (the code departs from it): a record with a name and no owner
    object in any successful listing makes [Catalog] panic at line 101,
    [tempPack.Owner.Login] reading through the nil [Owner]; the record is
    not skipped and no response is written. *)
Theorem Catalog_ownerless_record_panics (env : environ) (c : client)
  (tempPackages : list github.Package) (pack : github.Package) :
  In (Ok tempPackages) (listings c (GitHubUsers env)) ->
  In pack tempPackages ->
  github.Name pack <> None ->
  github.Owner pack = None ->
  Catalog env c = Panic.
Proof.
  intros Hin Hpack Hname Howner. rewrite Catalog_spec.
  replace (existsb (existsb ownerless) _) with true; [reflexivity|].
  symmetry. apply existsb_exists. exists tempPackages. split.
  - now apply successful_In.
  - apply existsb_exists. exists pack. split; [assumption|].
    unfold ownerless. rewrite Howner.
    destruct (github.Name pack); [reflexivity|contradiction].
Qed.

(** C9: in the loop a failed call leaves [packages] and [successes] as they
    were and adds one entry to the errors; and the response of a request in
    which some call succeeded is determined by the successful listings, in
    their order, whatever calls failed in between. *)
Theorem Catalog_failed_calls_leave_packages :
  (forall (c c' : client) (user : string) (rest : list string)
          (st : fanout_state) (err : string),
      ListPackages c user packageType = (Err err, c') ->
      exists st',
        fanout c (user :: rest) st = fanout c' rest st' /\
        packages st' = packages st /\
        successes st' = successes st /\
        elems (Errors (errors st')) =
        elems (Errors (errors st)) ++ [list_error err]) /\
  (forall (env1 env2 : environ) (c1 c2 : client),
      successful (listings c1 (GitHubUsers env1)) =
      successful (listings c2 (GitHubUsers env2)) ->
      successful (listings c1 (GitHubUsers env1)) <> [] ->
      Catalog env1 c1 = Catalog env2 c2).
Proof.
  split.
  - intros c c' user rest st err Hcall.
    exists (record_failure st err). cbn [fanout]. rewrite Hcall.
    repeat split. cbn [record_failure errors Errors].
    now rewrite elems_append.
  - intros env1 env2 c1 c2 Heq Hne. rewrite !Catalog_spec, <- Heq.
    destruct (existsb (existsb ownerless) _); [reflexivity|].
    destruct (successful (listings c1 (GitHubUsers env1))); [contradiction|].
    reflexivity.
Qed.

End CatalogClaims.

(* ===================================================================== *)
(** * The entries of the catalog *)
(* ===================================================================== *)

Lemma keys_of_In (packages : list github.Package) (k : string * string) :
  In k (keys_of packages) ->
  exists pack, In pack packages /\ key_of pack = Some k.
Proof.
  induction packages as [|pack rest IH]; simpl; [easy|].
  destruct (key_of pack) as [k'|] eqn:Hk.
  - intros [<-|Hin].
    + exists pack. auto.
    + destruct (IH Hin) as [p [? ?]]. exists p. auto.
  - intros Hin. destruct (IH Hin) as [p [? ?]]. exists p. auto.
Qed.

Lemma key_of_Some (pack : github.Package) (login name : string) :
  key_of pack = Some (login, name) ->
  pack = {| github.Name := Some name;
            github.Owner := Some {| github.Login := Some login |} |}.
Proof.
  destruct pack as [[n|] [[[l|]]|]]; cbn; try discriminate.
  now intros [= -> ->].
Qed.

Lemma plain_spec (s : string) :
  plain s = true <-> s <> "" /\ contains_byte chi.slash s = false.
Proof.
  unfold plain. rewrite andb_true_iff, !negb_true_iff, String.eqb_neq.
  reflexivity.
Qed.

(** A login and a name that are non-empty and free of [/] give an entry
    with exactly one [/] and text on both sides. *)
Lemma entry_one_slash (login name : string) :
  plain login = true -> plain name = true ->
  one_slash_both_parts (entry (login, name)) = true.
Proof.
  intros Hl Hn. apply plain_spec in Hl as [Hl Hl'], Hn as [Hn Hn'].
  unfold one_slash_both_parts, entry, Sprintf_s_slash_s. cbn [fst snd].
  change (String.append "/" name) with (String chi.slash name).
  rewrite Split_app by assumption. rewrite Split_plain by assumption.
  apply String.eqb_neq in Hl, Hn. now rewrite Hl, Hn.
Qed.


Section CatalogEntries.

Context {client : Type} `{GitHubClient client}.

(** C6, as the code has it: every string of the [repositories] array of a
    200 response is [login/name] for a record of some successful listing
    that has both fields; it holds exactly one [/] with text on both sides
    whenever that login and that name are non-empty and free of [/]. *)
Theorem Catalog_entries_from_records (env : environ) (c : client)
  (resp : response) :
  Catalog env c = Done resp ->
  status resp = 200 ->
  exists repositories,
    payload resp = CatalogBody (Slice repositories) /\
    forall r, In r repositories ->
      exists tempPackages login name,
        In (Ok tempPackages) (listings c (GitHubUsers env)) /\
        In {| github.Name := Some name;
              github.Owner := Some {| github.Login := Some login |} |}
           tempPackages /\
        r = String.append login (String.append "/" name) /\
        (plain login = true -> plain name = true ->
         one_slash_both_parts r = true).
Proof.
  intros Hresp Hstatus. rewrite Catalog_spec in Hresp.
  destruct (existsb (existsb ownerless) _); [discriminate|].
  destruct (Nat.eqb _ 0); injection Hresp as <-; [discriminate|].
  eexists. split; [reflexivity|].
  intros r Hr. apply in_map_iff in Hr as [[login name] [<- Hk]].
  apply keys_of_In in Hk as [pack [Hpack Hk]].
  apply key_of_Some in Hk. subst pack.
  apply merged_origin in Hpack as [[]|[tempPackages [Hlisted Hpack]]].
  exists tempPackages, login, name. repeat split.
  - now apply successful_In.
  - assumption.
  - apply entry_one_slash.
Qed.


End CatalogEntries.

(* ===================================================================== *)
(** * [TagsList] *)
(* ===================================================================== *)

Lemma add_tags_version_tags (tags : slice string)
  (version : github.PackageVersion) :
  elems (add_tags tags version) = elems tags ++ version_tags version.
Proof.
  unfold add_tags, version_tags.
  destruct (github.Metadata version) as [[[container|]]|];
    [apply elems_append|now rewrite app_nil_r..].
Qed.

Lemma add_tags_allocated (tags : list string)
  (version : github.PackageVersion) :
  exists tags', add_tags (Slice tags) version = Slice tags'.
Proof.
  unfold add_tags.
  destruct (github.Metadata version) as [[[container|]]|]; cbn; eauto.
Qed.

Lemma fold_add_tags (versions : list github.PackageVersion)
  (tags : list string) :
  fold_left add_tags versions (Slice tags) =
  Slice (tags ++ flat_map version_tags versions).
Proof.
  revert tags. induction versions as [|version versions IH]; intros tags.
  - simpl. now rewrite app_nil_r.
  - cbn [fold_left flat_map].
    destruct (add_tags_allocated tags version) as [tags' Htags'].
    pose proof (add_tags_version_tags (Slice tags) version) as Helems.
    rewrite Htags' in *. cbn [elems] in Helems. subst tags'.
    rewrite IH. now rewrite <- app_assoc.
Qed.

Section TagsListClaims.

Context {client : Type} `{GitHubClient client}.

(** C4: when the version listing succeeds, [TagsList] replies 200 with the
    body [{ name, tags }], where [name] is [owner/name] from the request
    path, and [tags] is the concatenation, in version order, of the
    container tags of each version, a version whose metadata or container
    metadata is absent giving none; [tags] is an array even when empty. *)
Theorem TagsList_success (c c' : client) (owner name : string)
  (versions : list github.PackageVersion) :
  PackageGetAllVersions c owner packageType name = (Ok versions, c') ->
  TagsList c owner name =
  {| status := 200;
     content_type := "application/json";
     payload :=
       TagsBody (String.append owner (String.append "/" name))
                (Slice (flat_map version_tags versions)) |} /\
  encode (payload (TagsList c owner name)) =
  JObject [("name", JString (String.append owner (String.append "/" name)));
           ("tags", JArray (map JString (flat_map version_tags versions)))].
Proof.
  intros Hcall. unfold TagsList. rewrite Hcall, fold_add_tags.
  split; reflexivity.
Qed.

End TagsListClaims.

(* ===================================================================== *)
(** * Routing *)
(* ===================================================================== *)

Lemma method_eqb_GET (m : chi.method) :
  m <> chi.GET -> chi.method_eqb chi.GET m = false.
Proof. destruct m; [contradiction|reflexivity..]. Qed.

(** C8 (the code departs from it): a request whose path matches one of the
    two translated patterns and whose method is not GET is not handed to
    the upstream proxy.  [NewProxy] sets the not-found handler only, so the
    router answers such a request itself, with status 405. *)
Theorem NewProxy_method_mismatch_not_forwarded (m : chi.method)
  (path : string) :
  m <> chi.GET ->
  chi.match_pattern "/v2/_catalog" path <> None \/
  chi.match_pattern "/v2/{owner}/{name}/tags/list" path <> None ->
  chi.routeHTTP NewProxy_router m path = chi.DefaultMethodNotAllowed /\
  chi.routeHTTP NewProxy_router m path <>
  chi.Fallback upstreamProxy_ServeHTTP /\
  forall (client : Type) (gh : GitHubClient client) (env : environ)
         (c : client),
    ServeHTTP env c m path = RouterStatus 405.
Proof.
  intros Hm Hpath.
  assert (E : chi.routeHTTP NewProxy_router m path =
              chi.DefaultMethodNotAllowed).
  { unfold chi.routeHTTP, NewProxy_router.
    cbn [chi.routes chi.NotFound chi.Get chi.NewRouter app
         chi.find_route chi.route_pattern chi.route_method
         chi.methodNotAllowedHandler chi.path_routed existsb].
    rewrite (method_eqb_GET Hm).
    destruct (chi.match_pattern "/v2/_catalog" path);
      destruct (chi.match_pattern "/v2/{owner}/{name}/tags/list" path);
      try reflexivity.
    destruct Hpath as [Hp|Hp]; now elim Hp. }
  split; [exact E|]. split; [rewrite E; discriminate|].
  intros client gh env c. unfold ServeHTTP. now rewrite E.
Qed.

(** [POST /v2/_catalog] is answered with 405 by the router. *)
Lemma NewProxy_method_mismatch_not_forwarded_witness :
  chi.POST <> chi.GET /\
  chi.match_pattern "/v2/_catalog" "/v2/_catalog" <> None /\
  chi.routeHTTP NewProxy_router chi.POST "/v2/_catalog" =
  chi.DefaultMethodNotAllowed /\
  ServeHTTP [] (Stub.of_packages []) chi.POST "/v2/_catalog" =
  RouterStatus 405.
Proof.
  assert (Hm : chi.POST <> chi.GET) by discriminate.
  assert (Hp : chi.match_pattern "/v2/_catalog" "/v2/_catalog" <> None)
    by discriminate.
  destruct (@NewProxy_method_mismatch_not_forwarded
              chi.POST "/v2/_catalog" Hm (or_introl Hp)) as [E [_ S]].
  split; [exact Hm|]. split; [exact Hp|]. split; [exact E|apply S].
Defined.

(* ===================================================================== *)
(** * Scenarios *)
(* ===================================================================== *)

(** C1 (the code departs from it): with [GITHUB_USERS=org1], the
    authenticated fetch failing and the fetch for [org1] succeeding with a
    record that has a name and no owner object, one call succeeds and yet
    [Catalog] writes no 200 response: it panics. *)
Theorem Catalog_partial_failure_ownerless_panics :
  let env := [("GITHUB_USERS", "org1")] in
  let record := {| github.Name := Some "x"; github.Owner := None |} in
  let c := Stub.of_packages [Err "boom"; Ok [record]] in
  listings c (GitHubUsers env) = [Err "boom"; Ok [record]] /\
  existsb is_ok (listings c (GitHubUsers env)) = true /\
  Catalog env c = Panic.
Proof. repeat split. Qed.

(** Both identities fail with [boom]: 400 and two entries. *)
Lemma Catalog_total_failure_witness :
  let env := [("GITHUB_USERS", "org1")] in
  let c := Stub.of_packages [Err "boom"; Err "boom"] in
  listings c (GitHubUsers env) = map Err ["boom"; "boom"] /\
  Catalog env c =
  Done {| status := 400;
          content_type := "application/json";
          payload :=
            ErrorBody
              {| Errors :=
                   Slice
                     [ {| Code := ERROR_UNKNOWN;
                          Message := "ListPackages: boom" |};
                       {| Code := ERROR_UNKNOWN;
                          Message := "ListPackages: boom" |} ] |} |}.
Proof.
  intros env c. split; [reflexivity|].
  apply (Catalog_total_failure env c ["boom"; "boom"]). reflexivity.
Defined.

Lemma Catalog_attempts_and_reports_witness :
  let env := [("GITHUB_USERS", "org1")] in
  let c := Stub.of_packages [Err "boom"; Err "boom"] in
  exists resp,
    Catalog env c = Done resp /\ status resp = 400 /\
    exists e es,
      payload resp = ErrorBody {| Errors := Slice (e :: es) |} /\
      encode (payload resp) =
      JObject [("errors", JArray (encode_error e :: map encode_error es))].
Proof.
  intros env c.
  destruct (Catalog_attempts_and_reports env c) as [_ [_ Hreports]].
  eexists. split; [reflexivity|]. split; [reflexivity|].
  apply Hreports; reflexivity.
Defined.

Lemma Catalog_ownerless_record_panics_witness :
  let record := {| github.Name := Some "x"; github.Owner := None |} in
  let c := Stub.of_packages [Ok [record]] in
  In (Ok [record]) (listings c (GitHubUsers [])) /\
  In record [record] /\
  github.Name record <> None /\
  github.Owner record = None /\
  Catalog [] c = Panic.
Proof.
  intros record c.
  assert (Hin : In (Ok [record]) (listings c (GitHubUsers [])))
    by (left; reflexivity).
  assert (Hpack : In record [record]) by (left; reflexivity).
  assert (Hname : github.Name record <> None) by discriminate.
  split; [exact Hin|]. split; [exact Hpack|]. split; [exact Hname|].
  split; [reflexivity|].
  exact (Catalog_ownerless_record_panics [] c _ _ Hin Hpack Hname eq_refl).
Defined.

Lemma Catalog_failed_calls_leave_packages_witness :
  let x := Stub.package "org1" "x" in
  let c := Stub.of_packages [Err "boom"; Ok [x]] in
  let c1 := Stub.of_packages [Ok [x]] in
  (exists st',
      fanout c [""; "org1"] fanout_init = fanout c1 ["org1"] st' /\
      packages st' = packages fanout_init /\
      successes st' = successes fanout_init /\
      elems (Errors (errors st')) =
      elems (Errors (errors fanout_init)) ++ [list_error "boom"]) /\
  Catalog [("GITHUB_USERS", "org1")] c = Catalog [] c1.
Proof.
  intros x c c1.
  destruct (Catalog_failed_calls_leave_packages (client := Stub.t))
    as [Hstep Hsame].
  split.
  - apply Hstep. reflexivity.
  - apply Hsame; [reflexivity|discriminate].
Defined.

(** A package name may hold a [/]: the entry then has two. *)
Lemma Catalog_entry_with_two_slashes :
  Catalog [] (Stub.of_packages [Ok [Stub.package "u" "repo/image"]]) =
  Done {| status := 200;
          content_type := "application/json";
          payload := CatalogBody (Slice ["u/repo/image"]) |} /\
  one_slash_both_parts "u/repo/image" = false.
Proof. split; reflexivity. Qed.

Lemma Catalog_entries_from_records_witness :
  let c := Stub.of_packages
             [Ok [Stub.package "u1" "alpha"; Stub.package "u1" "beta"]] in
  let resp := {| status := 200;
                 content_type := "application/json";
                 payload := CatalogBody (Slice ["u1/alpha"; "u1/beta"]) |} in
  Catalog [] c = Done resp /\
  status resp = 200 /\
  exists repositories,
    payload resp = CatalogBody (Slice repositories) /\
    forall r, In r repositories ->
      exists tempPackages login name,
        In (Ok tempPackages) (listings c (GitHubUsers [])) /\
        In {| github.Name := Some name;
              github.Owner := Some {| github.Login := Some login |} |}
           tempPackages /\
        r = String.append login (String.append "/" name) /\
        (plain login = true -> plain name = true ->
         one_slash_both_parts r = true).
Proof.
  intros c resp. split; [reflexivity|]. split; [reflexivity|].
  apply (Catalog_entries_from_records [] c); reflexivity.
Defined.



(** Two versions, the second without metadata. *)
Lemma TagsList_success_witness :
  let v1 := {| github.Metadata :=
                 Some {| github.Container :=
                           Some {| github.Tags := ["latest"; "v1"] |} |} |} in
  let v2 := {| github.Metadata := None |} in
  let c := Stub.of_versions [Ok [v1; v2]] in
  PackageGetAllVersions c "u" packageType "p" =
  (Ok [v1; v2], Stub.of_versions []) /\
  TagsList c "u" "p" =
  {| status := 200;
     content_type := "application/json";
     payload := TagsBody "u/p" (Slice ["latest"; "v1"]) |} /\
  encode (payload (TagsList c "u" "p")) =
  JObject [("name", JString "u/p");
           ("tags", JArray [JString "latest"; JString "v1"])].
Proof.
  intros v1 v2 c.
  assert (Hcall : PackageGetAllVersions c "u" packageType "p" =
                  (Ok [v1; v2], Stub.of_versions [])) by reflexivity.
  split; [exact Hcall|].
  exact (TagsList_success c "u" "p" Hcall).
Defined.

(* ===================================================================== *)
(** * More on the catalog: order, completeness, what is passed over *)
(* ===================================================================== *)

Lemma keys_of_add_keys (tempPackages packages : list github.Package) :
  keys_of (add_keys tempPackages packages) =
  observe (keys_of tempPackages) (keys_of packages).
Proof.
  revert packages.
  induction tempPackages as [|tempPack rest IH]; intros packages;
    [reflexivity|].
  cbn [add_keys keys_of]. destruct (key_of tempPack) as [k|] eqn:Hk;
    [|apply IH].
  cbn [observe]. destruct (existsb (key_eqb k) (keys_of packages));
    [apply IH|].
  rewrite IH. now rewrite (keys_of_snoc _ _ Hk).
Qed.

Lemma observe_app (ks ks' seen : list (string * string)) :
  observe (ks ++ ks') seen = observe ks' (observe ks seen).
Proof.
  revert seen. induction ks as [|k ks IH]; intros seen; [reflexivity|].
  cbn [app observe]. destruct (existsb (key_eqb k) seen); apply IH.
Qed.

Lemma keys_of_merged (listed : list (list github.Package))
  (packages : list github.Package) :
  keys_of (merged listed packages) =
  observe (flat_map keys_of listed) (keys_of packages).
Proof.
  revert packages.
  induction listed as [|tempPackages listed IH]; intros packages;
    [reflexivity|].
  cbn [merged fold_left flat_map]. rewrite observe_app.
  rewrite <- keys_of_add_keys. apply IH.
Qed.

Lemma filter_filter_and (A : Type) (f g : A -> bool) (l : list A) :
  filter f (filter g l) = filter (fun x => f x && g x) l.
Proof.
  induction l as [|x l IH]; [reflexivity|].
  simpl. destruct (g x); simpl; destruct (f x); simpl; now rewrite IH.
Qed.

Lemma observe_first_occurrences (ks seen : list (string * string)) :
  observe ks seen =
  seen ++ filter (fun k => negb (existsb (key_eqb k) seen))
                 (first_occurrences ks).
Proof.
  revert seen. induction ks as [|k ks IH]; intros seen.
  - simpl. now rewrite app_nil_r.
  - cbn [observe first_occurrences filter].
    destruct (existsb (key_eqb k) seen) eqn:Hseen; cbn [negb].
    + rewrite IH. f_equal. rewrite filter_filter_and.
      apply filter_ext. intros x.
      destruct (key_eqb x k) eqn:Hx; cbn [negb];
        [|symmetry; apply andb_true_r].
      apply key_eqb_eq in Hx. subst x. now rewrite Hseen.
    + rewrite IH, <- app_assoc. cbn [app]. do 2 f_equal.
      rewrite filter_filter_and. apply filter_ext. intros x.
      rewrite existsb_app. cbn [existsb]. rewrite orb_false_r.
      now rewrite negb_orb.
Qed.

Lemma first_occurrences_In (ks : list (string * string))
  (k : string * string) :
  In k (first_occurrences ks) <-> In k ks.
Proof.
  induction ks as [|k0 ks IH]; [reflexivity|].
  cbn [first_occurrences In]. rewrite filter_In, IH. split.
  - intros [?|[? _]]; auto.
  - intros [?|Hin]; [now left|].
    destruct (key_eqb k k0) eqn:Hk.
    + left. apply key_eqb_eq in Hk. now subst.
    + right. split; [assumption|reflexivity].
Qed.

Lemma merged_keys (listed : list (list github.Package)) :
  keys_of (merged listed []) = first_occurrences (flat_map keys_of listed).
Proof.
  rewrite keys_of_merged, observe_first_occurrences. cbn [keys_of app].
  rewrite <- (filter_ext (fun _ => true)) by reflexivity.
  induction (first_occurrences _) as [|k ks IH]; [reflexivity|].
  simpl. now rewrite IH.
Qed.

Lemma key_of_In_keys (packages : list github.Package)
  (pack : github.Package) (k : string * string) :
  In pack packages -> key_of pack = Some k -> In k (keys_of packages).
Proof.
  induction packages as [|p rest IH]; [easy|].
  intros [->|Hin] Hk; cbn [keys_of].
  - rewrite Hk. now left.
  - destruct (key_of p); [right|]; now apply IH.
Qed.


Section CatalogMore.

Context {client : Type} `{GitHubClient client}.

(** X1: the [repositories] array of a 200 response lists the keys of the
    records of the successful listings, taken in call order and in listing
    order, each key at its first occurrence and rendered [login/name]. *)
Theorem Catalog_first_observation_order (env : environ) (c : client)
  (resp : response) :
  Catalog env c = Done resp ->
  status resp = 200 ->
  payload resp =
  CatalogBody
    (Slice
       (map entry
          (first_occurrences
             (flat_map keys_of
                (successful (listings c (GitHubUsers env))))))).
Proof.
  intros Hresp Hstatus. rewrite Catalog_spec in Hresp.
  destruct (existsb (existsb ownerless) _); [discriminate|].
  destruct (Nat.eqb _ 0); injection Hresp as <-; [discriminate|].
  cbn [payload]. now rewrite merged_keys.
Qed.

(** X2: nothing that was listed is left out: in a 200 response every
    record of a successful listing that has a name and an owner login has
    its entry [login/name] in the [repositories] array. *)
Theorem Catalog_lists_every_keyed_record (env : environ) (c : client)
  (resp : response) (tempPackages : list github.Package)
  (login name : string) :
  Catalog env c = Done resp ->
  status resp = 200 ->
  In (Ok tempPackages) (listings c (GitHubUsers env)) ->
  In {| github.Name := Some name;
        github.Owner := Some {| github.Login := Some login |} |}
     tempPackages ->
  exists repositories,
    payload resp = CatalogBody (Slice repositories) /\
    In (String.append login (String.append "/" name)) repositories.
Proof.
  intros Hresp Hstatus Hlisted Hpack. rewrite Catalog_spec in Hresp.
  destruct (existsb (existsb ownerless) _); [discriminate|].
  destruct (Nat.eqb _ 0); injection Hresp as <-; [discriminate|].
  eexists. split; [reflexivity|].
  apply (in_map entry _ (login, name)).
  rewrite merged_keys. apply first_occurrences_In.
  apply in_flat_map. exists tempPackages. split.
  - now apply successful_In.
  - now apply key_of_In_keys with (1 := Hpack).
Qed.


(** X4: a response of [Catalog] is a 200 carrying a [repositories] array,
    and then some call succeeded, or a 400 carrying an error envelope, and
    then every call failed; it has no other status. *)
Theorem Catalog_status_reflects_success (env : environ) (c : client)
  (resp : response) :
  Catalog env c = Done resp ->
  (status resp = 200 /\
   existsb is_ok (listings c (GitHubUsers env)) = true /\
   exists repositories, payload resp = CatalogBody (Slice repositories)) \/
  (status resp = 400 /\
   existsb is_ok (listings c (GitHubUsers env)) = false /\
   exists errs,
     payload resp = ErrorBody {| Errors := Slice errs |} /\
     length errs = length (GitHubUsers env)).
Proof.
  intros Hresp. rewrite Catalog_spec in Hresp.
  destruct (existsb (existsb ownerless) _); [discriminate|].
  pose proof (successful_length (listings c (GitHubUsers env))) as Hlen.
  pose proof (successful_exists (listings c (GitHubUsers env))) as Hex.
  destruct (successful (listings c (GitHubUsers env))) as [|t ts];
    cbn [length Nat.eqb] in Hresp; injection Hresp as <-.
  - right. split; [reflexivity|]. split.
    + destruct (existsb is_ok _); [|reflexivity].
      now destruct (proj1 Hex eq_refl).
    + cbn [length plus] in Hlen.
      rewrite (listings_length c (GitHubUsers env)) in Hlen.
      destruct (failures (listings c (GitHubUsers env))) as [|e es].
      * exfalso. apply (GitHubUsers_nonempty env).
        now apply length_zero_iff_nil.
      * eexists. split; [reflexivity|]. now rewrite length_map.
  - left. split; [reflexivity|]. split.
    + apply Hex. discriminate.
    + eexists. reflexivity.
Qed.

End CatalogMore.

Lemma skipped_spec (pack : github.Package) :
  skipped pack = true -> key_of pack = None /\ ownerless pack = false.
Proof.
  unfold skipped. destruct (key_of pack); [discriminate|].
  intros Hs. apply negb_true_iff in Hs. auto.
Qed.

Lemma prune_successful (ls : list (result (list github.Package))) :
  successful (map prune ls) =
  map (filter (fun pack => negb (skipped pack))) (successful ls).
Proof.
  induction ls as [|[t|err] ls IH]; simpl; [reflexivity| |assumption].
  now rewrite IH.
Qed.

Lemma prune_failures (ls : list (result (list github.Package))) :
  failures (map prune ls) = failures ls.
Proof.
  induction ls as [|[t|err] ls IH]; simpl; [reflexivity|assumption|].
  now rewrite IH.
Qed.

Lemma ownerless_filter (tempPackages : list github.Package) :
  existsb ownerless (filter (fun pack => negb (skipped pack)) tempPackages) =
  existsb ownerless tempPackages.
Proof.
  induction tempPackages as [|pack rest IH]; [reflexivity|].
  cbn [filter existsb]. destruct (skipped pack) eqn:Hs; cbn [negb].
  - apply skipped_spec in Hs as [_ ->]. exact IH.
  - cbn [existsb]. now rewrite IH.
Qed.

Lemma add_keys_filter (tempPackages packages : list github.Package) :
  add_keys (filter (fun pack => negb (skipped pack)) tempPackages) packages =
  add_keys tempPackages packages.
Proof.
  revert packages.
  induction tempPackages as [|pack rest IH]; intros packages; [reflexivity|].
  cbn [filter add_keys]. destruct (skipped pack) eqn:Hs; cbn [negb].
  - apply skipped_spec in Hs as [-> _]. apply IH.
  - cbn [add_keys]. destruct (key_of pack); [|apply IH].
    destruct (existsb _ _); apply IH.
Qed.

Lemma merged_filter (listed : list (list github.Package))
  (packages : list github.Package) :
  merged (map (filter (fun pack => negb (skipped pack))) listed) packages =
  merged listed packages.
Proof.
  revert packages. induction listed as [|t listed IH]; intros packages;
    [reflexivity|].
  cbn [map merged fold_left]. rewrite add_keys_filter. apply IH.
Qed.

Lemma ownerless_map_filter (listed : list (list github.Package)) :
  existsb (existsb ownerless)
          (map (filter (fun pack => negb (skipped pack))) listed) =
  existsb (existsb ownerless) listed.
Proof.
  induction listed as [|t listed IH]; [reflexivity|].
  cbn [map existsb]. now rewrite ownerless_filter, IH.
Qed.

Lemma add_keys_known (tempPackages packages : list github.Package) :
  (forall k, In k (keys_of tempPackages) -> In k (keys_of packages)) ->
  add_keys tempPackages packages = packages.
Proof.
  induction tempPackages as [|pack rest IH]; intros Hknown; [reflexivity|].
  cbn [add_keys keys_of] in *. destruct (key_of pack) as [k|].
  - replace (existsb (key_eqb k) (keys_of packages)) with true.
    + apply IH. intros k' Hk'. apply Hknown. now right.
    + symmetry. apply existsb_key_eqb. apply Hknown. now left.
  - now apply IH.
Qed.

Lemma merged_snoc (listed : list (list github.Package))
  (tempPackages : list github.Package) :
  merged (listed ++ [tempPackages]) [] =
  add_keys tempPackages (merged listed []).
Proof. unfold merged. now rewrite fold_left_app. Qed.

Section CatalogPassedOver.

Context {client : Type} `{GitHubClient client}.

(** X5: a record whose name is nil, or whose owner has a nil login, counts
    for nothing: two requests whose answers differ only by such records get
    the same outcome. *)
Theorem Catalog_skips_keyless_records (env1 env2 : environ) (c1 c2 : client) :
  listings c2 (GitHubUsers env2) = map prune (listings c1 (GitHubUsers env1)) ->
  Catalog env2 c2 = Catalog env1 c1.
Proof.
  intros Hls. rewrite !Catalog_spec, Hls.
  rewrite prune_successful, prune_failures, ownerless_map_filter,
    merged_filter, length_map.
  reflexivity.
Qed.

(** X6: a listing that brings no new key changes nothing: when one more
    call succeeds after others did, with records whose keys were all
    listed before (and none without its owner object), the outcome is the
    one of the request without that call.  A namespace configured twice is
    such a case. *)
Theorem Catalog_known_keys_add_nothing (env1 env2 : environ) (c1 c2 : client)
  (tempPackages : list github.Package) :
  successful (listings c2 (GitHubUsers env2)) =
  successful (listings c1 (GitHubUsers env1)) ++ [tempPackages] ->
  successful (listings c1 (GitHubUsers env1)) <> [] ->
  existsb ownerless tempPackages = false ->
  (forall k, In k (keys_of tempPackages) ->
             In k (flat_map keys_of
                     (successful (listings c1 (GitHubUsers env1))))) ->
  Catalog env2 c2 = Catalog env1 c1.
Proof.
  intros Hls Hne Hown Hknown. rewrite !Catalog_spec, Hls.
  rewrite existsb_app. cbn [existsb]. rewrite Hown, !orb_false_r.
  destruct (existsb (existsb ownerless) _); [reflexivity|].
  rewrite merged_snoc, add_keys_known.
  - rewrite length_app. cbn [length]. rewrite Nat.add_1_r.
    destruct (successful (listings c1 (GitHubUsers env1)));
      [contradiction|reflexivity].
  - intros k Hk. rewrite merged_keys. apply first_occurrences_In.
    now apply Hknown.
Qed.

End CatalogPassedOver.

(* ===================================================================== *)
(** * Scenarios of the catalog *)
(* ===================================================================== *)

(** [GITHUB_USERS=org1], the authenticated fetch fails and the fetch for
    [org1] lists one package: the reply is 200 with that package and
    without the error. *)
Lemma Catalog_partial_failure_witness :
  let env := [("GITHUB_USERS", "org1")] in
  let c := Stub.of_packages [Err "boom"; Ok [Stub.package "org1" "x"]] in
  existsb is_ok (listings c (GitHubUsers env)) = true /\
  existsb (existsb ownerless) (successful (listings c (GitHubUsers env))) =
  false /\
  exists repositories,
    Catalog env c =
    Done {| status := 200;
            content_type := "application/json";
            payload := CatalogBody (Slice repositories) |} /\
    encode (CatalogBody (Slice repositories)) =
    JObject [("repositories", JArray (map JString repositories))].
Proof.
  intros env c.
  assert (Hok : existsb is_ok (listings c (GitHubUsers env)) = true)
    by reflexivity.
  assert (Hown : existsb (existsb ownerless)
                   (successful (listings c (GitHubUsers env))) = false)
    by reflexivity.
  split; [exact Hok|]. split; [exact Hown|].
  exact (Catalog_partial_failure env c Hok Hown).
Defined.

(** Two identities list overlapping packages: the entries come in the
    order of first observation. *)
Lemma Catalog_first_observation_order_witness :
  let env := [("GITHUB_USERS", "org1")] in
  let c := Stub.of_packages
             [Ok [Stub.package "u1" "beta"; Stub.package "org1" "x"];
              Ok [Stub.package "org1" "x"; Stub.package "org1" "alpha";
                  Stub.package "u1" "beta"]] in
  let resp := {| status := 200;
                 content_type := "application/json";
                 payload :=
                   CatalogBody (Slice ["u1/beta"; "org1/x"; "org1/alpha"]) |} in
  Catalog env c = Done resp /\
  payload resp =
  CatalogBody
    (Slice
       (map entry
          (first_occurrences
             (flat_map keys_of
                (successful (listings c (GitHubUsers env))))))).
Proof.
  intros env c resp. split; [reflexivity|].
  apply (Catalog_first_observation_order env c (resp := resp)); reflexivity.
Defined.

Lemma Catalog_lists_every_keyed_record_witness :
  let env := [("GITHUB_USERS", "org1")] in
  let c := Stub.of_packages
             [Ok [Stub.package "u1" "beta"];
              Ok [Stub.package "org1" "x"; Stub.package "u1" "beta"]] in
  let resp := {| status := 200;
                 content_type := "application/json";
                 payload := CatalogBody (Slice ["u1/beta"; "org1/x"]) |} in
  Catalog env c = Done resp /\
  exists repositories,
    payload resp = CatalogBody (Slice repositories) /\
    In "org1/x" repositories.
Proof.
  intros env c resp. split; [reflexivity|].
  apply (@Catalog_lists_every_keyed_record _ _ env c resp
           [Stub.package "org1" "x"; Stub.package "u1" "beta"]
           "org1" "x").
  - reflexivity.
  - reflexivity.
  - right. left. reflexivity.
  - left. reflexivity.
Defined.


Lemma Catalog_status_reflects_success_witness :
  let env := [("GITHUB_USERS", "org1")] in
  let c := Stub.of_packages [Err "boom"; Err "bang"] in
  let resp := {| status := 400;
                 content_type := "application/json";
                 payload :=
                   ErrorBody
                     {| Errors :=
                          Slice [list_error "boom"; list_error "bang"] |} |} in
  Catalog env c = Done resp /\
  ((status resp = 200 /\
    existsb is_ok (listings c (GitHubUsers env)) = true /\
    exists repositories, payload resp = CatalogBody (Slice repositories)) \/
   (status resp = 400 /\
    existsb is_ok (listings c (GitHubUsers env)) = false /\
    exists errs,
      payload resp = ErrorBody {| Errors := Slice errs |} /\
      length errs = length (GitHubUsers env))).
Proof.
  intros env c resp. split; [reflexivity|].
  apply (Catalog_status_reflects_success env c (resp := resp)). reflexivity.
Defined.

(** Records without a name or without an owner login, dropped from the
    answers. *)
Lemma Catalog_skips_keyless_records_witness :
  let nameless :=
    {| github.Name := None; github.Owner := None |} in
  let loginless :=
    {| github.Name := Some "y";
       github.Owner := Some {| github.Login := None |} |} in
  let c1 := Stub.of_packages
              [Ok [nameless; Stub.package "u" "p"; loginless]] in
  let c2 := Stub.of_packages [Ok [Stub.package "u" "p"]] in
  listings c2 (GitHubUsers []) = map prune (listings c1 (GitHubUsers [])) /\
  Catalog [] c2 = Catalog [] c1.
Proof.
  intros nameless loginless c1 c2. split; [reflexivity|].
  apply (Catalog_skips_keyless_records [] [] c1 c2). reflexivity.
Defined.

(** [GITHUB_USERS=a,a]: the second listing for [a] adds nothing. *)
Lemma Catalog_known_keys_add_nothing_witness :
  let la := [Stub.package "a" "p"; Stub.package "a" "q"] in
  let c1 := Stub.of_packages [Ok []; Ok la] in
  let c2 := Stub.of_packages [Ok []; Ok la; Ok la] in
  let env1 := [("GITHUB_USERS", "a")] in
  let env2 := [("GITHUB_USERS", "a,a")] in
  successful (listings c2 (GitHubUsers env2)) =
  successful (listings c1 (GitHubUsers env1)) ++ [la] /\
  Catalog env2 c2 = Catalog env1 c1.
Proof.
  intros la c1 c2 env1 env2. split; [reflexivity|].
  apply (@Catalog_known_keys_add_nothing _ _ env1 env2 c1 c2 la).
  - reflexivity.
  - discriminate.
  - reflexivity.
  - intros k Hk. cbn in Hk |- *. tauto.
Defined.

(* ===================================================================== *)
(** * More on [GitHubUsers] and [main] *)
(* ===================================================================== *)


Lemma Split_Join (parts : list string) (sep : ascii) :
  parts <> [] ->
  Forall (fun part => contains_byte sep part = false) parts ->
  Split (Join parts (String sep EmptyString)) sep = parts.
Proof.
  intros Hne Hparts. induction Hparts as [|p parts Hp Hparts IH];
    [contradiction|].
  destruct parts as [|q parts].
  - cbn [Join]. now apply Split_plain.
  - rewrite Join_cons by discriminate. cbn [String.append].
    rewrite Split_app by assumption. f_equal. apply IH. discriminate.
Qed.

Lemma Join_empty (parts : list string) (sep : ascii) :
  Join parts (String sep EmptyString) = "" -> parts = [] \/ parts = [""].
Proof.
  destruct parts as [|p [|q parts]]; intros E.
  - now left.
  - right. cbn [Join] in E. now subst.
  - rewrite Join_cons in E by discriminate. cbn [String.append] in E.
    destruct p; discriminate.
Qed.

Section Identities.

Context {client : Type} `{GitHubClient client}.


End Identities.

(** X9: to have the namespaces [ns] queried, in that order, after the
    authenticated identity, set [GITHUB_USERS] to [ns] joined by commas;
    this holds for every non-empty [ns] without a comma inside a name,
    except the single empty name.  Empty names (a doubled or trailing
    comma) are kept, and query the authenticated identity again. *)
Theorem GitHubUsers_of_namespaces (env : environ) (namespaces : list string) :
  namespaces <> [] ->
  namespaces <> [""] ->
  Forall (fun n => contains_byte comma n = false) namespaces ->
  Getenv env "GITHUB_USERS" = Join namespaces "," ->
  GitHubUsers env = "" :: namespaces.
Proof.
  intros Hne Hne' Hplain Hconf. unfold GitHubUsers. rewrite Hconf.
  destruct (String.eqb_spec (Join namespaces ",") "") as [E|_]; cbn [negb].
  - apply Join_empty in E as [E|E]; contradiction.
  - cbn [app]. f_equal. now apply Split_Join.
Qed.

Lemma GitHubUsers_of_namespaces_witness :
  let env := [("HOST", "0.0.0.0"); ("GITHUB_USERS", "org1,,team two,")] in
  let namespaces := ["org1"; ""; "team two"; ""] in
  Getenv env "GITHUB_USERS" = Join namespaces "," /\
  GitHubUsers env = "" :: namespaces.
Proof.
  intros env namespaces. split; [reflexivity|].
  apply (@GitHubUsers_of_namespaces env namespaces).
  - discriminate.
  - discriminate.
  - repeat constructor.
  - reflexivity.
Defined.


(* ===================================================================== *)
(** * More on [TagsList] *)
(* ===================================================================== *)

Lemma version_tags_none (versions : list github.PackageVersion) :
  Forall (fun version =>
            github.Metadata version = None \/
            github.Metadata version = Some {| github.Container := None |})
         versions ->
  flat_map version_tags versions = [].
Proof.
  intros Hnone.
  induction Hnone as [|version versions Hversion _ IH]; [reflexivity|].
  cbn [flat_map]. rewrite IH. unfold version_tags.
  destruct Hversion as [->| ->]; reflexivity.
Qed.

Section TagsListMore.

Context {client : Type} `{GitHubClient client}.

(** When the version listing fails, [TagsList] replies 400 with an
    envelope of exactly one entry, whose message is
    ["PackageGetAllVersions: "] followed by the error text; no tag is
    reported. *)
Theorem TagsList_failure (c c' : client) (owner name err : string) :
  PackageGetAllVersions c owner packageType name = (Err err, c') ->
  TagsList c owner name =
  {| status := 400;
     content_type := "application/json";
     payload :=
       ErrorBody
         {| Errors :=
              Slice [ {| Code := ERROR_UNKNOWN;
                         Message :=
                           String.append "PackageGetAllVersions: " err |} ] |}
  |}.
Proof. intros Hcall. unfold TagsList. now rewrite Hcall. Qed.

(** X11: a package without versions, or whose versions all lack container
    metadata, has the tag list [[]]: the reply is 200 and [tags] is encoded
    as an empty array, not as [null]. *)
Theorem TagsList_no_container_metadata (c c' : client) (owner name : string)
  (versions : list github.PackageVersion) :
  PackageGetAllVersions c owner packageType name = (Ok versions, c') ->
  Forall (fun version =>
            github.Metadata version = None \/
            github.Metadata version = Some {| github.Container := None |})
         versions ->
  status (TagsList c owner name) = 200 /\
  encode (payload (TagsList c owner name)) =
  JObject [("name", JString (String.append owner (String.append "/" name)));
           ("tags", JArray [])].
Proof.
  intros Hcall Hnone. unfold TagsList. rewrite Hcall, fold_add_tags.
  rewrite (version_tags_none Hnone). split; reflexivity.
Qed.

End TagsListMore.


Lemma TagsList_failure_witness :
  let c := Stub.of_versions [Err "404 Not Found"] in
  PackageGetAllVersions c "u" packageType "p" =
  (Err "404 Not Found", Stub.of_versions []) /\
  TagsList c "u" "p" =
  {| status := 400;
     content_type := "application/json";
     payload :=
       ErrorBody
         {| Errors :=
              Slice [ {| Code := ERROR_UNKNOWN;
                         Message :=
                           "PackageGetAllVersions: 404 Not Found" |} ] |} |}.
Proof.
  intros c.
  assert (Hcall : PackageGetAllVersions c "u" packageType "p" =
                  (Err "404 Not Found", Stub.of_versions [])) by reflexivity.
  split; [exact Hcall|].
  exact (TagsList_failure c "u" "p" Hcall).
Defined.

Lemma TagsList_no_container_metadata_witness :
  let v1 := {| github.Metadata := None |} in
  let v2 := {| github.Metadata := Some {| github.Container := None |} |} in
  let c := Stub.of_versions [Ok [v1; v2]] in
  PackageGetAllVersions c "u" packageType "p" =
  (Ok [v1; v2], Stub.of_versions []) /\
  status (TagsList c "u" "p") = 200 /\
  encode (payload (TagsList c "u" "p")) =
  JObject [("name", JString "u/p"); ("tags", JArray [])].
Proof.
  intros v1 v2 c.
  assert (Hcall : PackageGetAllVersions c "u" packageType "p" =
                  (Ok [v1; v2], Stub.of_versions [])) by reflexivity.
  split; [exact Hcall|].
  apply (TagsList_no_container_metadata c "u" "p" Hcall).
  constructor; [now left|]. constructor; [now right|constructor].
Defined.

(* ===================================================================== *)
(** * More on routing *)
(* ===================================================================== *)

(** The router of [NewProxy], case by case. *)
Lemma NewProxy_routes (m : chi.method) (path : string) :
  chi.routeHTTP NewProxy_router m path =
  if chi.method_eqb chi.GET m then
    match chi.match_pattern "/v2/_catalog" path with
    | Some ps => chi.Endpoint proxy_Catalog ps
    | None =>
        match chi.match_pattern "/v2/{owner}/{name}/tags/list" path with
        | Some ps => chi.Endpoint proxy_TagsList ps
        | None => chi.Fallback upstreamProxy_ServeHTTP
        end
    end
  else
    match chi.match_pattern "/v2/_catalog" path,
          chi.match_pattern "/v2/{owner}/{name}/tags/list" path with
    | None, None => chi.Fallback upstreamProxy_ServeHTTP
    | _, _ => chi.DefaultMethodNotAllowed
    end.
Proof.
  unfold chi.routeHTTP, NewProxy_router.
  cbn [chi.routes chi.NotFound chi.Get chi.NewRouter app
       chi.find_route chi.route_pattern chi.route_method chi.route_endpoint
       chi.methodNotAllowedHandler chi.notFoundHandler
       chi.path_routed existsb].
  destruct (chi.method_eqb chi.GET m);
    destruct (chi.match_pattern "/v2/_catalog" path);
    destruct (chi.match_pattern "/v2/{owner}/{name}/tags/list" path);
    reflexivity.
Qed.

Lemma method_eqb_eq (a b : chi.method) : chi.method_eqb a b = true <-> a = b.
Proof. destruct a, b; split; intros E; try reflexivity; discriminate. Qed.








(** X13: only the exact path is the catalog: a request for a path that
    starts with [/] is routed to [Catalog] exactly when its method is [GET]
    and its path is [/v2/_catalog], byte for byte (no trailing [/]). *)
Theorem NewProxy_catalog_route_exact (m : chi.method) (rest : string) :
  (exists ps,
      chi.routeHTTP NewProxy_router m (String chi.slash rest) =
      chi.Endpoint proxy_Catalog ps) <->
  m = chi.GET /\ String chi.slash rest = "/v2/_catalog".
Proof.
  split.
  - intros [ps Hroute]. rewrite NewProxy_routes in Hroute.
    destruct (chi.method_eqb chi.GET m) eqn:Hm.
    + apply method_eqb_eq in Hm. split; [now subst|].
      destruct (chi.match_pattern "/v2/_catalog" (String chi.slash rest))
        as [ps'|] eqn:Hmatch.
      * unfold chi.match_pattern, chi.segments in Hmatch.
        cbn [Split] in Hmatch. rewrite Ascii.eqb_refl in Hmatch.
        change (chi.parse_pattern "/v2/_catalog")
          with [chi.Static "v2"; chi.Static "_catalog"] in Hmatch.
        pose proof (Join_Split rest chi.slash) as Hjoin.
        destruct (Split rest chi.slash) as [|s1 [|s2 [|s3 segs]]];
          cbn [chi.match_segments] in Hmatch; try discriminate.
        -- destruct (String.eqb "v2" s1); discriminate.
        -- destruct (String.eqb_spec "v2" s1) as [E1|]; [|discriminate].
           destruct (String.eqb_spec "_catalog" s2) as [E2|]; [|discriminate].
           rewrite <- Hjoin, <- E1, <- E2. reflexivity.
        -- destruct (String.eqb "v2" s1); [|discriminate].
           destruct (String.eqb "_catalog" s2); discriminate.
      * destruct (chi.match_pattern "/v2/{owner}/{name}/tags/list"
                    (String chi.slash rest));
          discriminate.
    + destruct (chi.match_pattern "/v2/_catalog" (String chi.slash rest));
        destruct (chi.match_pattern "/v2/{owner}/{name}/tags/list"
                    (String chi.slash rest));
        discriminate.
  - intros [-> ->]. eexists. reflexivity.
Qed.




(** X16: the server never answers 404 of its own, a translated response is
    always the answer to a [GET], and a 405 never is. *)
Theorem ServeHTTP_outcomes (client : Type) (gh : GitHubClient client)
  (env : environ) (c : client) (m : chi.method) (path : string) :
  ServeHTTP env c m path <> RouterStatus 404 /\
  (forall r, ServeHTTP env c m path = Translated r -> m = chi.GET) /\
  (ServeHTTP env c m path = RouterStatus 405 -> m <> chi.GET).
Proof.
  unfold ServeHTTP. rewrite NewProxy_routes.
  destruct (chi.method_eqb chi.GET m) eqn:Hm.
  - apply method_eqb_eq in Hm. subst m.
    destruct (chi.match_pattern "/v2/_catalog" path);
      destruct (chi.match_pattern "/v2/{owner}/{name}/tags/list" path);
      repeat split; try discriminate; auto.
  - assert (Hne : m <> chi.GET).
    { intros ->. discriminate. }
    destruct (chi.match_pattern "/v2/_catalog" path);
      destruct (chi.match_pattern "/v2/{owner}/{name}/tags/list" path);
      repeat split; try discriminate; auto.
Qed.

(** [/v2/_catalog/], with a trailing [/], is not the catalog. *)
Lemma NewProxy_catalog_route_exact_witness :
  ~ (exists ps,
        chi.routeHTTP NewProxy_router chi.GET "/v2/_catalog/" =
        chi.Endpoint proxy_Catalog ps) /\
  (exists ps,
      chi.routeHTTP NewProxy_router chi.GET "/v2/_catalog" =
      chi.Endpoint proxy_Catalog ps).
Proof.
  split.
  - intros Hroute.
    apply (NewProxy_catalog_route_exact chi.GET "v2/_catalog/") in Hroute.
    destruct Hroute as [_ Hpath]. discriminate Hpath.
  - apply (NewProxy_catalog_route_exact chi.GET "v2/_catalog").
    split; reflexivity.
Defined.


Lemma ServeHTTP_outcomes_witness :
  ServeHTTP [] (Stub.of_packages []) chi.HEAD "/v2/u/p/tags/list" =
  RouterStatus 405 /\
  chi.HEAD <> chi.GET.
Proof.
  assert (E : ServeHTTP [] (Stub.of_packages []) chi.HEAD "/v2/u/p/tags/list" =
              RouterStatus 405) by reflexivity.
  split; [exact E|].
  exact (proj2 (proj2 (ServeHTTP_outcomes Stub.client [] (Stub.of_packages [])
                         chi.HEAD "/v2/u/p/tags/list")) E).
Defined.
